(** * py_m3u: the M3U parser and serializer of [py_m3u/_m3u.py]

    A shallow embedding of [matched_prefix_dict], [AudioFileRef],
    [AudioDirRef] and [M3UParser] (dump, dumps, loads), and the properties
    of the specification stated over it.

    Conventions.
    - A Python [str] is a sequence of Unicode code points: [list N].
    - The module [py_m3u.directives] is imported by [_m3u.py] but is not
      part of the sources at hand.  What [_m3u.py] uses of it (the
      directive objects, their [as_m3u] rendering, the
      [isinstance(_, EXTINF)] test, the ordered table
      [ALL_DIRECTIVE_PREFIXES]) is the interface [DirectivesModule], over
      which the development is generic; the module [Directives] gives one
      instance, written from the specification, on which the statements
      are evaluated.
    - The filesystem ([os.path.exists], [os.path.isdir], [os.listdir]) is
      a record of functions passed explicitly. *)

From Stdlib Require Import String Ascii List NArith Bool Lia.
Import ListNotations.

Set Implicit Arguments.

(** ** Python strings *)

Definition str := list N.

(** A literal: the code points of an 8-bit string. *)
Definition py (s : string) : str :=
  map N_of_ascii (list_ascii_of_string s).

Definition LF : N := 10%N.
Definition CR : N := 13%N.

(** The line boundaries of [str.splitlines]:
    \n, \v, \f, \r, \x1c, \x1d, \x1e, \x85, U+2028, U+2029
    (and \r\n as one boundary). *)
Definition is_linebreak (c : N) : bool :=
  existsb (N.eqb c) [10; 11; 12; 13; 28; 29; 30; 133; 8232; 8233]%N.

(** The whitespace characters of [str.isspace]. *)
Definition is_whitespace (c : N) : bool :=
  ((9 <=? c) && (c <=? 13) || (28 <=? c) && (c <=? 32)
   || existsb (N.eqb c) [133; 160; 5760; 8232; 8233; 8239; 8287; 12288]
   || (8192 <=? c) && (c <=? 8202))%N.

(** [s.isspace()]: at least one character, and all of them whitespace. *)
Definition isspace (s : str) : bool :=
  match s with
  | [] => false
  | _ :: _ => forallb is_whitespace s
  end.

(** [s.startswith(prefix)] *)
Fixpoint startswith (s prefix : str) {struct prefix} : bool :=
  match prefix with
  | [] => true
  | p :: prefix' =>
      match s with
      | [] => false
      | c :: s' => (N.eqb c p) && startswith s' prefix'
      end
  end.

(** [s.endswith(suffixes)] with a tuple of suffixes: some suffix matches. *)
Definition endswith1 (s suffix : str) : bool :=
  startswith (rev s) (rev suffix).

Definition endswith (s : str) (suffixes : list str) : bool :=
  existsb (endswith1 s) suffixes.

(** [s.splitlines()]: [cur] is the line being read.  A line is closed at
    each boundary (\r\n counts once); what follows the last boundary is a
    line only when it is not empty. *)
Fixpoint splitlines_from (cur : str) (s : str) : list str :=
  match s with
  | [] => match cur with [] => [] | _ :: _ => [cur] end
  | c :: rest =>
      if is_linebreak c then
        cur :: match rest with
               | c' :: rest' =>
                   if (N.eqb c CR) && (N.eqb c' LF)
                   then splitlines_from [] rest'
                   else splitlines_from [] rest
               | [] => splitlines_from [] rest
               end
      else splitlines_from (cur ++ [c]) rest
  end.

Definition splitlines (s : str) : list str := splitlines_from [] s.

(** ** [matched_prefix_dict]

    [prefix_dicts.items()] runs through the dictionary in insertion order:
    the dictionary is the list of its (key, value) pairs in that order.
    The loop stops at the first key the string starts with.  The result
    is an [Optional]: a value of the dictionary, or [default_value], which
    is [None] unless the caller passes one. *)
Section MatchedPrefix.
Variable Value : Type.

Fixpoint matched_prefix_dict (string : str) (prefix_dicts : list (str * Value))
         (default_value : option Value) : option Value :=
  match prefix_dicts with
  | [] => default_value
  | (prefix, value) :: items =>
      if startswith string prefix then Some value
      else matched_prefix_dict string items default_value
  end.
End MatchedPrefix.


(** ** Exceptions, results and generators *)

(** What [os.listdir] raises when the directory cannot be listed. *)
Inductive OSError : Type :=
| FileNotFoundError
| NotADirectoryError
| PermissionError.

(** The outcome of a call that may raise. *)
Inductive result (E A : Type) : Type :=
| Ok (a : A)
| Raise (e : E).
Arguments Ok {E A} a.
Arguments Raise {E A} e.

Definition bind {E A B} (r : result E A) (k : A -> result E B) : result E B :=
  match r with
  | Ok a => k a
  | Raise e => Raise e
  end.

Notation "x <- r ;; k" := (bind r (fun x => k))
  (at level 61, r at next level, right associativity).

(** A finished run of a Python generator: the values it yields, in order,
    ended by exhaustion ([Stop]) or by an exception leaving the generator
    ([Throw]).  The values yielded before an exception stay yielded. *)
Inductive Generator (A E : Type) : Type :=
| Stop
| Yield (a : A) (rest : Generator A E)
| Throw (e : E).
Arguments Stop {A E}.
Arguments Yield {A E} a rest.
Arguments Throw {A E} e.

Fixpoint yielded {A E} (g : Generator A E) : list A :=
  match g with
  | Stop => []
  | Yield a rest => a :: yielded rest
  | Throw _ => []
  end.

Fixpoint thrown {A E} (g : Generator A E) : option E :=
  match g with
  | Stop => None
  | Yield _ rest => thrown rest
  | Throw e => Some e
  end.

(** The generator that yields the items of a list and stops. *)
Fixpoint yield_from {A E} (l : list A) : Generator A E :=
  match l with
  | [] => Stop
  | a :: l' => Yield a (yield_from l')
  end.

(** Yield the items of a list, then go on as [g]. *)
Fixpoint yield_then {A E} (l : list A) (g : Generator A E) : Generator A E :=
  match l with
  | [] => g
  | a :: l' => Yield a (yield_then l' g)
  end.

(** ** The collaborators *)

(** The filesystem as [_m3u.py] sees it.  [os.path.exists] and
    [os.path.isdir] answer [False] on any failure; [os.listdir] raises. *)
Record FileSystem : Type := {
  os_path_exists : str -> bool;
  os_path_isdir : str -> bool;
  os_listdir : str -> result OSError (list str)
}.

(** A text file object: what [read()] returns and the arguments of the
    calls of [write] so far, oldest first. *)
Record TextIO : Type := {
  content : str;
  writes : list str
}.

Definition read (file_type : TextIO) : str := content file_type.

Definition write (file_type : TextIO) (s : str) : TextIO :=
  {| content := content file_type; writes := writes file_type ++ [s] |}.

(** ** What [_m3u.py] imports from [py_m3u.directives] *)

(** A directive class, used through its classmethod [from_m3u_string].
    A class object is true in [if found_matched_prefix:]. *)
Record DirectiveClass (Directive DirectiveError : Type) : Type := {
  from_m3u_string : str -> result DirectiveError Directive
}.

Class DirectivesModule : Type := {
  (** instances of the directive classes *)
  Directive : Type;
  (** the exception a directive class raises on a line it cannot parse *)
  DirectiveError : Type;
  (** the property [as_m3u]: the rendered line *)
  as_m3u : Directive -> str;
  (** [isinstance(obj, EXTINF)] *)
  isinstance_EXTINF : Directive -> bool;
  (** the truth value of an instance in [if obj:] *)
  truth : Directive -> bool;
  (** the dictionary from prefix to class, in insertion order *)
  ALL_DIRECTIVE_PREFIXES : list (str * DirectiveClass Directive DirectiveError)
}.

(** ** The reference model and the parser *)
Section M3U.

Context {DM : DirectivesModule}.
Variable fs : FileSystem.

(** *** [AudioFileRef] *)

Definition supported_audio_file_extensions : list str := [py ".mp3"].

Record AudioFileRef : Type := {
  _source : str;
  _external_info : option Directive;
  _exists : option bool;
  _is_supported : option bool
}.

(** [AudioFileRef(source, external_info, validate_existence,
    check_extension)]; the defaults of the last three are [None], [True],
    [True].  [source] is taken as a [str] already. *)
Definition AudioFileRef_init (source : str) (external_info : option Directive)
           (validate_existence check_extension : bool) : AudioFileRef :=
  {| _source := source;
     _external_info := external_info;
     _exists :=
       if validate_existence then Some (os_path_exists fs source) else None;
     _is_supported :=
       if check_extension
       then Some (endswith source supported_audio_file_extensions)
       else None |}.

(** *** [AudioDirRef] *)

Record AudioDirRef : Type := {
  _directory : str;
  _audio_files : list AudioFileRef;
  _dir_exists : option bool;   (* the attribute [_exists] of the class *)
  _is_dir : option bool
}.

(** [AudioDirRef(directory, validate_existence, validate_directory,
    check_extension)].  The listing comes first: when [os.listdir] raises,
    the exception leaves the constructor.  Each name of the listing is
    wrapped by [AudioFileRef(file, check_extension=check_extension)], with
    [external_info] and [validate_existence] at their defaults. *)
Definition AudioDirRef_init (directory : str)
           (validate_existence validate_directory check_extension : bool)
  : result OSError AudioDirRef :=
  listing <- os_listdir fs directory ;;
  Ok {| _directory := directory;
        _audio_files :=
          map (fun file => AudioFileRef_init file None true check_extension)
              listing;
        _dir_exists :=
          if validate_existence
          then Some (os_path_exists fs directory) else None;
        _is_dir :=
          if validate_directory
          then Some (os_path_isdir fs directory) else None |}.

(** [__iter__]: the files computed at construction, in order. *)
Definition AudioDirRef_iter (d : AudioDirRef) : Generator AudioFileRef OSError :=
  yield_from (_audio_files d).

(** *** [M3UParser] *)

(** An argument of [dumps], a value yielded by [loads]. *)
Inductive M3UObject : Type :=
| FileRef (f : AudioFileRef)
| DirRef (d : AudioDirRef)
| DirectiveObj (d : Directive).

(** The text one argument adds to [m3u_string] before the final newline. *)
Definition dumps_item (m3u_obj : M3UObject) : str :=
  match m3u_obj with
  | FileRef f =>
      let external_info_string :=
        match _external_info f with
        | Some info => if truth info then as_m3u info else []
        | None => []
        end in
      external_info_string ++ [LF] ++ _source f
  | DirRef d => _directory d
  | DirectiveObj d => as_m3u d
  end.

(** [M3UParser.dumps]: [args] is the tuple of its positional arguments. *)
Definition dumps (args : list M3UObject) : str :=
  fold_left (fun m3u_string m3u_obj => (m3u_string ++ dumps_item m3u_obj) ++ [LF])
            args [].

(** [M3UParser.dump(file_type)]: [dumps] is called without arguments. *)
Definition dump (file_type : TextIO) : TextIO :=
  write file_type (dumps []).

(** The two local variables of [loads] that live across iterations. *)
Record loads_state : Type := {
  parsed_line : option M3UObject;
  last_external_info : option Directive
}.

Definition loads_init : loads_state :=
  {| parsed_line := None; last_external_info := None |}.

(** One iteration of the loop of [loads] up to its [yield]: the state at
    the [yield], whose [parsed_line] is the value yielded. *)
Definition loads_body (st : loads_state) (line : str)
  : result DirectiveError loads_state :=
  match matched_prefix_dict line ALL_DIRECTIVE_PREFIXES None with
  | Some found_matched_prefix =>
      directive_obj <- from_m3u_string found_matched_prefix line ;;
      Ok {| parsed_line := Some (DirectiveObj directive_obj);
            last_external_info :=
              if isinstance_EXTINF directive_obj
              then Some directive_obj
              else last_external_info st |}
  | None =>
      if negb (isspace line)
      then Ok {| parsed_line :=
                   Some (FileRef (AudioFileRef_init
                                    line (last_external_info st) true true));
                 last_external_info := None |}
      else Ok st
  end.

Fixpoint loads_lines (st : loads_state) (lines : list str)
  : Generator (option M3UObject) DirectiveError :=
  match lines with
  | [] => Stop
  | line :: lines' =>
      match loads_body st line with
      | Raise e => Throw e
      | Ok st' => Yield (parsed_line st') (loads_lines st' lines')
      end
  end.

(** [M3UParser.loads(m3u_string)] *)
Definition loads (m3u_string : str)
  : Generator (option M3UObject) DirectiveError :=
  loads_lines loads_init (splitlines m3u_string).

(** [M3UParser.load(file_type)] *)
Definition load (file_type : TextIO)
  : Generator (option M3UObject) DirectiveError :=
  loads (read file_type).

End M3U.


(** ** The vocabulary of the specification *)
Section Vocabulary.

Context {DM : DirectivesModule}.
Variable fs : FileSystem.

(** A text that [splitlines] keeps in one piece. *)
Definition single_line (s : str) : bool :=
  forallb (fun c => negb (is_linebreak c)) s.

(** The round-trip law of the registry for one directive: its rendered
    line is one line, the table finds a class for it, and that class
    parses it back to the directive. *)
Definition renders_back (d : Directive) : Prop :=
  single_line (as_m3u d) = true /\
  match matched_prefix_dict (as_m3u d) ALL_DIRECTIVE_PREFIXES None with
  | Some cls => from_m3u_string cls (as_m3u d) = Ok d
  | None => False
  end.

(** A path as the format has it: one line, no directive prefix, not
    whitespace only. *)
Definition path_line (s : str) : Prop :=
  single_line s = true /\
  matched_prefix_dict s ALL_DIRECTIVE_PREFIXES None = None /\
  isspace s = false.

(** The playlist items of the amended round trip: a bare directive, a
    file reference that carries a Metadata directive, a directory
    reference. *)
Definition well_formed_item (o : M3UObject) : Prop :=
  match o with
  | DirectiveObj d => renders_back d
  | FileRef f =>
      match _external_info f with
      | Some info =>
          truth info = true /\ isinstance_EXTINF info = true /\
          renders_back info /\ path_line (_source f)
      | None => False
      end
  | DirRef d => path_line (_directory d)
  end.

(** What [loads] yields for the text of a playlist, [pending] being the
    Metadata directive waiting for a path: a directive comes back as
    itself, a file reference as its Metadata directive followed by the
    reference built anew from the path, a directory reference as a file
    reference on the directory path. *)
Fixpoint reparsed (pending : option Directive) (playlist : list M3UObject)
  : list M3UObject :=
  match playlist with
  | [] => []
  | DirectiveObj d :: rest =>
      DirectiveObj d
        :: reparsed (if isinstance_EXTINF d then Some d else pending) rest
  | FileRef f :: rest =>
      match _external_info f with
      | Some info => [DirectiveObj info]
      | None => []
      end
        ++ FileRef (AudioFileRef_init fs (_source f) (_external_info f) true true)
        :: reparsed None rest
  | DirRef d :: rest =>
      FileRef (AudioFileRef_init fs (_directory d) pending true true)
        :: reparsed None rest
  end.

(** What structural equality of playlists compares: source strings,
    directive fields, the attachment of external info. *)
Inductive Structure : Type :=
| SFile (source : str) (external_info : option Directive)
| SDir (directory : str)
| SDirective (d : Directive).

Definition structure (o : M3UObject) : Structure :=
  match o with
  | FileRef f => SFile (_source f) (_external_info f)
  | DirRef d => SDir (_directory d)
  | DirectiveObj d => SDirective d
  end.

(** [loads(dumps(P)) == P] under structural equality. *)
Definition round_trips (playlist : list M3UObject) : Prop :=
  thrown (loads fs (dumps playlist)) = None /\
  map (option_map structure) (yielded (loads fs (dumps playlist)))
  = map (fun o => Some (structure o)) playlist.

(** The loop of [loads] run over some lines: the values yielded and the
    state reached, or the exception that ended it. *)
Fixpoint loads_run (st : loads_state) (lines : list str)
  : result DirectiveError (list (option M3UObject) * loads_state) :=
  match lines with
  | [] => Ok ([], st)
  | line :: lines' =>
      st' <- loads_body fs st line ;;
      r <- loads_run st' lines' ;;
      Ok (parsed_line st' :: fst r, snd r)
  end.

(** Every registered prefix begins with a character that is not
    whitespace (the directives of the format begin with [#]). *)
Definition visible_prefix (prefix : str) : bool :=
  match prefix with
  | c :: _ => negb (is_whitespace c)
  | [] => false
  end.

Definition visible_prefixes : bool :=
  forallb (fun kv => visible_prefix (fst kv)) ALL_DIRECTIVE_PREFIXES.

(** A line after which the pending Metadata directive is what it was: a
    line of whitespace, or the line of a directive that is not an
    [EXTINF]. *)
Definition keeps_pending (line : str) : bool :=
  match matched_prefix_dict line ALL_DIRECTIVE_PREFIXES None with
  | Some cls =>
      match from_m3u_string cls line with
      | Ok d => negb (isinstance_EXTINF d)
      | Raise _ => false
      end
  | None => isspace line
  end.

(** What can be said of a value [loads] yields, [lines] being the lines
    of its input: never a directory reference, and a file reference is
    built from one of the lines, which is a path, with both checks made. *)
Definition yielded_from_lines (lines : list str) (v : option M3UObject) : Prop :=
  match v with
  | None => True
  | Some (DirectiveObj _) => True
  | Some (DirRef _) => False
  | Some (FileRef f) =>
      In (_source f) lines
      /\ single_line (_source f) = true
      /\ isspace (_source f) = false
      /\ matched_prefix_dict (_source f) ALL_DIRECTIVE_PREFIXES None = None
      /\ _exists f = Some (os_path_exists fs (_source f))
      /\ _is_supported f
         = Some (endswith (_source f) supported_audio_file_extensions)
  end.

(** The external info [info] is an [EXTINF] directive that is among the
    values [seen]; nothing is asked of [None]. *)
Definition info_seen (seen : list (option M3UObject)) (info : option Directive)
  : Prop :=
  match info with
  | Some d => isinstance_EXTINF d = true /\ In (Some (DirectiveObj d)) seen
  | None => True
  end.

Definition value_info_seen (seen : list (option M3UObject)) (v : option M3UObject)
  : Prop :=
  match v with
  | Some (FileRef f) => info_seen seen (_external_info f)
  | _ => True
  end.

End Vocabulary.

(** Lines written one after the other, each followed by [eol]. *)
Definition terminated (eol : str) (lines : list str) : str :=
  concat (map (fun line => line ++ eol) lines).

(** The line ends a text file may use: one line boundary character, or
    \r\n. *)
Definition line_terminator (eol : str) : bool :=
  match eol with
  | [c] => is_linebreak c
  | [c; c'] => N.eqb c CR && N.eqb c' LF
  | _ => false
  end.

(** ** A concrete directives module and filesystem *)

Module Directives.

(** Modelled from the spec: the module [py_m3u.directives] (the classes
    [Directive] and [EXTINF] and the table [ALL_DIRECTIVE_PREFIXES]), which
    [_m3u.py] imports and the sources do not include.  The specification
    gives the Metadata directive a numeric duration (an integer or a
    decimal) and a display title, written [<prefix><duration>,<title>]
    with the title the rest of the line verbatim, and leaves the other
    kinds to the registry; one such kind, a playlist title, stands for
    them here. *)

(** A duration as it is written: a sign, the digits before the point and
    the digits after it (none for an integer). *)
Record Number : Type := {
  negative : bool;
  integer_digits : list N;
  fraction_digits : list N
}.

Inductive t : Type :=
| EXTINF (duration : Number) (title : str)
| PLAYLIST (title : str).

Inductive MalformedDirectiveError : Type :=
| Malformed (line : str).

Definition EXTINF_prefix : str := py "#EXTINF:".
Definition PLAYLIST_prefix : str := py "#PLAYLIST:".

Definition digit_char (d : N) : N := (48 + d)%N.

Definition is_digit_char (c : N) : bool := ((48 <=? c) && (c <=? 57))%N.

Definition render_number (n : Number) : str :=
  (if negative n then py "-" else [])
    ++ map digit_char (integer_digits n)
    ++ match fraction_digits n with
       | [] => []
       | _ :: _ => py "." ++ map digit_char (fraction_digits n)
       end.

Definition render (d : t) : str :=
  match d with
  | EXTINF duration title => EXTINF_prefix ++ render_number duration ++ py "," ++ title
  | PLAYLIST title => PLAYLIST_prefix ++ title
  end.

(** The text before the first occurrence of [sep] and the text after it. *)
Fixpoint partition (sep : N) (s : str) : option (str * str) :=
  match s with
  | [] => None
  | c :: rest =>
      if N.eqb c sep then Some ([], rest)
      else match partition sep rest with
           | Some (before, after) => Some (c :: before, after)
           | None => None
           end
  end.

Definition parse_digits (s : str) : option (list N) :=
  match s with
  | [] => None
  | _ :: _ =>
      if forallb is_digit_char s then Some (map (fun c => (c - 48)%N) s) else None
  end.

Definition parse_number (s : str) : option Number :=
  let (neg, body) :=
    match s with
    | 45%N :: body => (true, body)
    | _ => (false, s)
    end in
  match partition 46%N body with
  | Some (whole, fraction) =>
      match parse_digits whole, parse_digits fraction with
      | Some w, Some f =>
          Some {| negative := neg; integer_digits := w; fraction_digits := f |}
      | _, _ => None
      end
  | None =>
      match parse_digits body with
      | Some w =>
          Some {| negative := neg; integer_digits := w; fraction_digits := [] |}
      | None => None
      end
  end.

(** [EXTINF.from_m3u_string]: the line is known to start with the prefix. *)
Definition EXTINF_from_m3u_string (line : str) : result MalformedDirectiveError t :=
  match partition 44%N (skipn (length EXTINF_prefix) line) with
  | Some (duration, title) =>
      match parse_number duration with
      | Some n => Ok (EXTINF n title)
      | None => Raise (Malformed line)
      end
  | None => Raise (Malformed line)
  end.

Definition PLAYLIST_from_m3u_string (line : str) : result MalformedDirectiveError t :=
  Ok (PLAYLIST (skipn (length PLAYLIST_prefix) line)).

Definition is_EXTINF (d : t) : bool :=
  match d with
  | EXTINF _ _ => true
  | PLAYLIST _ => false
  end.

#[global] Instance module : DirectivesModule := {|
  Directive := t;
  DirectiveError := MalformedDirectiveError;
  as_m3u := render;
  isinstance_EXTINF := is_EXTINF;
  truth := fun _ => true;
  ALL_DIRECTIVE_PREFIXES :=
    [ (EXTINF_prefix, {| from_m3u_string := EXTINF_from_m3u_string |});
      (PLAYLIST_prefix, {| from_m3u_string := PLAYLIST_from_m3u_string |}) ]
|}.

(** The integer duration written with the given digits. *)
Definition seconds (digits : list N) : Number :=
  {| negative := false; integer_digits := digits; fraction_digits := [] |}.

End Directives.

(** Equality of strings, for the filesystem below. *)
Fixpoint str_eqb (a b : str) : bool :=
  match a, b with
  | [], [] => true
  | x :: a', y :: b' => N.eqb x y && str_eqb a' b'
  | _, _ => false
  end.

(** A filesystem with one directory, [music], that holds [song.mp3],
    [image.jpg] and [readme.txt]; every other path is missing. *)
Definition music_listing : list str :=
  [py "song.mp3"; py "image.jpg"; py "readme.txt"].

Definition music_fs : FileSystem := {|
  os_path_exists := fun p =>
    existsb (str_eqb p)
            [py "music"; py "music/song.mp3"; py "music/image.jpg";
             py "music/readme.txt"];
  os_path_isdir := fun p => str_eqb p (py "music");
  os_listdir := fun p =>
    if str_eqb p (py "music") then Ok music_listing
    else Raise FileNotFoundError
|}.


(** The examples of the specification. *)
Definition my_song : @Directive Directives.module :=
  Directives.EXTINF (Directives.seconds [1; 2; 3]%N) (py "My Song").

Definition song_ref : AudioFileRef :=
  AudioFileRef_init music_fs (py "/music/song.mp3") (Some my_song) true true.

Definition music_dir : AudioDirRef :=
  {| _directory := py "music";
     _audio_files :=
       map (fun file => AudioFileRef_init music_fs file None true true)
           music_listing;
     _dir_exists := Some true;
     _is_dir := Some true |}.

(** A playlist with a bare directive, a file reference that carries its
    Metadata directive and a directory reference. *)
Definition example_playlist : list M3UObject :=
  [DirectiveObj (Directives.PLAYLIST (py "Mix")); FileRef song_ref; DirRef music_dir].

(** The two scenarios of the specification, and an input that begins with
    two whitespace-only lines. *)
Definition song_input : str :=
  py "#EXTINF:123,My Song" ++ [LF] ++ py "/music/song.mp3" ++ [LF].

Definition blank_middle_input : str :=
  py "/music/a.mp3" ++ [LF; LF] ++ py "/music/b.mp3" ++ [LF].

Definition blank_start_input : str :=
  py "  " ++ [LF; 9%N; LF] ++ py "/music/a.mp3" ++ [LF].

(** Inputs with a directive that cannot be parsed, with lines between a
    Metadata directive and its path, with two paths after one Metadata
    directive, and with a line of spaces. *)
Definition malformed_input : str :=
  py "/music/a.mp3" ++ [LF] ++ py "#EXTINF:12x,T" ++ [LF] ++ py "/music/b.mp3" ++ [LF].

Definition delayed_input : str :=
  py "#EXTINF:123,My Song" ++ [LF] ++ py "#PLAYLIST:Mix" ++ [LF]
     ++ py "  " ++ [LF] ++ py "/music/song.mp3" ++ [LF].

Definition two_paths_input : str :=
  py "#EXTINF:123,My Song" ++ [LF] ++ py "/music/a.mp3" ++ [LF]
     ++ py "#PLAYLIST:Mix" ++ [LF] ++ py "/music/b.mp3" ++ [LF].

Definition spaces_middle_input : str :=
  py "/music/a.mp3" ++ [LF] ++ py "  " ++ [LF] ++ py "/music/b.mp3" ++ [LF].

(** * Properties *)

Unset Implicit Arguments.

(** ** Strings *)

Lemma startswith_iff (s prefix : str) :
  startswith s prefix = true <-> exists rest, s = prefix ++ rest.
Proof.
  revert s; induction prefix as [|p prefix IH]; intros s; simpl.
  - split; [intros _; now exists s | reflexivity].
  - destruct s as [|c s].
    + split; [discriminate | intros [rest H]; discriminate].
    + rewrite andb_true_iff, N.eqb_eq, IH. split.
      * intros [-> [rest ->]]. now exists rest.
      * intros [rest H]. injection H as -> ->. split; [reflexivity | now exists rest].
Qed.

Lemma startswith_false_iff (s prefix : str) :
  startswith s prefix = false <-> ~ exists rest, s = prefix ++ rest.
Proof.
  rewrite <- startswith_iff. destruct (startswith s prefix); split; intros H.
  - discriminate.
  - now contradiction H.
  - discriminate.
  - reflexivity.
Qed.

Lemma splitlines_from_line (line : str) :
  single_line line = true ->
  forall cur rest,
    splitlines_from cur (line ++ LF :: rest) = (cur ++ line) :: splitlines rest.
Proof.
  induction line as [|c line IH]; intros Hline cur rest.
  - rewrite app_nil_r. simpl. now destruct rest.
  - simpl in Hline. apply andb_true_iff in Hline as [Hc Hline].
    apply negb_true_iff in Hc. simpl. rewrite Hc.
    rewrite (IH Hline). now rewrite <- app_assoc.
Qed.

Lemma splitlines_line (line rest : str) :
  single_line line = true ->
  splitlines (line ++ LF :: rest) = line :: splitlines rest.
Proof.
  intros H. unfold splitlines at 1. now rewrite splitlines_from_line.
Qed.

(** ** [matched_prefix_dict] *)

Lemma matched_prefix_dict_no_match (Value : Type) (string : str)
      (prefix_dicts : list (str * Value)) (default_value : option Value) :
  (forall p v, In (p, v) prefix_dicts -> startswith string p = false) ->
  matched_prefix_dict string prefix_dicts default_value = default_value.
Proof.
  induction prefix_dicts as [|[p v] items IH]; intros H; simpl.
  - reflexivity.
  - rewrite (H p v) by now left. apply IH. intros q w Hin. apply (H q w). now right.
Qed.

Lemma matched_prefix_dict_split (Value : Type) (string : str)
      (prefix_dicts : list (str * Value)) (default_value : option Value) :
  (exists before prefix value after,
      prefix_dicts = before ++ (prefix, value) :: after
      /\ startswith string prefix = true
      /\ (forall p v, In (p, v) before -> startswith string p = false)
      /\ matched_prefix_dict string prefix_dicts default_value = Some value)
  \/ ((forall p v, In (p, v) prefix_dicts -> startswith string p = false)
      /\ matched_prefix_dict string prefix_dicts default_value = default_value).
Proof.
  induction prefix_dicts as [|[p v] items IH]; simpl.
  - right. split; [intros ? ? [] | reflexivity].
  - destruct (startswith string p) eqn:Hp.
    + left. exists [], p, v, items. repeat split; auto. intros ? ? [].
    + destruct IH as [(before & q & w & after & -> & Hq & Hbefore & Hres) | [Hnone Hres]].
      * left. exists ((p, v) :: before), q, w, after. repeat split; auto.
        intros p' v' [Heq | Hin]; [now inversion Heq; subst | eauto].
      * right. split; [|assumption].
        intros p' v' [Heq | Hin]; [now inversion Heq; subst | eauto].
Qed.

(** C7.  The lookup returns the value of the first key, in insertion
    order, that is a literal prefix of the string, and the default when no
    key is; with ["AB"] registered before ["A"], the line ["ABC"] gets the
    value of ["AB"]. *)
Theorem matched_prefix_dict_first_match (Value : Type) (string : str)
        (prefix_dicts : list (str * Value)) (default_value : option Value) :
  ((exists before prefix value after,
       prefix_dicts = before ++ (prefix, value) :: after
       /\ (exists rest, string = prefix ++ rest)
       /\ (forall p v, In (p, v) before -> ~ exists rest, string = p ++ rest)
       /\ matched_prefix_dict string prefix_dicts default_value = Some value)
   \/ ((forall p v, In (p, v) prefix_dicts -> ~ exists rest, string = p ++ rest)
       /\ matched_prefix_dict string prefix_dicts default_value = default_value))
  /\ (forall AB A : Value,
         matched_prefix_dict (py "ABC") [(py "AB", AB); (py "A", A)] default_value
         = Some AB).
Proof.
  split; [|reflexivity].
  destruct (matched_prefix_dict_split Value string prefix_dicts default_value)
    as [(before & p & v & after & Heq & Hp & Hbefore & Hres) | [Hnone Hres]].
  - left. exists before, p, v, after. repeat split; auto.
    + now apply startswith_iff.
    + intros q w Hin. apply startswith_false_iff. eauto.
  - right. split; [|assumption].
    intros q w Hin. apply startswith_false_iff. eauto.
Qed.

(** ** [dumps] and [dump] *)
Section Dumps.

Context {DM : DirectivesModule}.

Lemma dumps_fold (args : list M3UObject) (acc : str) :
  fold_left (fun m3u_string m3u_obj => (m3u_string ++ dumps_item m3u_obj) ++ [LF])
            args acc
  = acc ++ dumps args.
Proof.
  unfold dumps. revert acc.
  induction args as [|o args IH]; intros acc; simpl.
  - now rewrite app_nil_r.
  - rewrite IH. rewrite (IH (dumps_item o ++ [LF])).
    now rewrite !app_assoc.
Qed.

Lemma dumps_cons (o : M3UObject) (args : list M3UObject) :
  dumps (o :: args) = dumps_item o ++ LF :: dumps args.
Proof.
  unfold dumps at 1. simpl. rewrite dumps_fold. now rewrite <- app_assoc.
Qed.

(** Each argument adds its text and one newline, in the order given. *)
Lemma dumps_concat (args : list M3UObject) :
  dumps args = concat (map (fun o => dumps_item o ++ [LF]) args).
Proof.
  induction args as [|o args IH]; [reflexivity|].
  rewrite dumps_cons, IH. simpl. now rewrite <- app_assoc.
Qed.

(** A file reference that carries a directive true in [if]: the rendered
    directive, a newline, the source. *)
Lemma dumps_item_with_info (f : AudioFileRef) (info : Directive) :
  _external_info f = Some info -> truth info = true ->
  dumps_item (FileRef f) = as_m3u info ++ [LF] ++ _source f.
Proof.
  intros Hinfo Htruth. unfold dumps_item. now rewrite Hinfo, Htruth.
Qed.

(** A file reference without one: a newline, then the source. *)
Lemma dumps_item_without_info (f : AudioFileRef) :
  _external_info f = None ->
  dumps_item (FileRef f) = LF :: _source f.
Proof.
  intros Hinfo. unfold dumps_item. now rewrite Hinfo.
Qed.

(** C10.  [dump] takes a file object and nothing else, calls [dumps]
    without arguments, which is the empty string, and so writes the empty
    string: one more call of [write], with [''], and nothing of any
    playlist. *)
Theorem dump_writes_empty_string (file_type : TextIO) :
  dumps (@nil M3UObject) = []
  /\ dump file_type = write file_type []
  /\ writes (dump file_type) = writes file_type ++ [[]]
  /\ concat (writes (dump file_type)) = concat (writes file_type)
  /\ content (dump file_type) = content file_type.
Proof.
  repeat split. unfold dump, write; simpl.
  now rewrite concat_app, app_nil_r.
Qed.

End Dumps.

(** ** [loads] *)
Section Loads.

Context {DM : DirectivesModule}.
Variable fs : FileSystem.

(** The three cases of the loop body. *)

Lemma loads_body_directive (st : loads_state) (line : str)
      (cls : DirectiveClass Directive DirectiveError) (d : Directive) :
  matched_prefix_dict line ALL_DIRECTIVE_PREFIXES None = Some cls ->
  from_m3u_string cls line = Ok d ->
  loads_body fs st line
  = Ok {| parsed_line := Some (DirectiveObj d);
          last_external_info :=
            if isinstance_EXTINF d then Some d else last_external_info st |}.
Proof.
  intros Hcls Hparse. unfold loads_body. rewrite Hcls. simpl. now rewrite Hparse.
Qed.

Lemma loads_body_path (st : loads_state) (line : str) :
  matched_prefix_dict line ALL_DIRECTIVE_PREFIXES None = None ->
  isspace line = false ->
  loads_body fs st line
  = Ok {| parsed_line :=
            Some (FileRef (AudioFileRef_init fs line (last_external_info st)
                                             true true));
          last_external_info := None |}.
Proof.
  intros Hnone Hspace. unfold loads_body. now rewrite Hnone, Hspace.
Qed.

Lemma loads_body_whitespace (st : loads_state) (line : str) :
  matched_prefix_dict line ALL_DIRECTIVE_PREFIXES None = None ->
  isspace line = true ->
  loads_body fs st line = Ok st.
Proof.
  intros Hnone Hspace. unfold loads_body. now rewrite Hnone, Hspace.
Qed.

(** A whitespace-only line starts with no visible prefix. *)
Lemma isspace_no_visible_prefix (line prefix : str) :
  isspace line = true -> visible_prefix prefix = true ->
  startswith line prefix = false.
Proof.
  destruct prefix as [|p prefix]; [discriminate|].
  destruct line as [|c line]; [discriminate|].
  simpl. intros Hline Hp.
  apply andb_true_iff in Hline as [Hc _]. apply negb_true_iff in Hp.
  destruct (N.eqb_spec c p) as [->|]; [congruence | reflexivity].
Qed.

Lemma isspace_no_directive (line : str) :
  visible_prefixes = true -> isspace line = true ->
  matched_prefix_dict line ALL_DIRECTIVE_PREFIXES None = None.
Proof.
  intros Hvis Hline. apply matched_prefix_dict_no_match.
  intros p v Hin. apply isspace_no_visible_prefix; [assumption|].
  unfold visible_prefixes in Hvis. rewrite forallb_forall in Hvis.
  apply (Hvis (p, v) Hin).
Qed.

(** The empty line is not whitespace-only for [isspace]: unless the empty
    prefix is registered, it is read as a path. *)
Lemma loads_body_empty_line (st : loads_state) :
  matched_prefix_dict [] ALL_DIRECTIVE_PREFIXES None = None ->
  loads_body fs st []
  = Ok {| parsed_line :=
            Some (FileRef (AudioFileRef_init fs [] (last_external_info st)
                                             true true));
          last_external_info := None |}.
Proof.
  intros Hnone. now apply loads_body_path.
Qed.

(** The generator over some lines followed by others. *)
Lemma loads_lines_app (before after : list str) :
  forall (st st' : loads_state) (outs : list (option M3UObject)),
    loads_run fs st before = Ok (outs, st') ->
    loads_lines fs st (before ++ after)
    = yield_then outs (loads_lines fs st' after).
Proof.
  induction before as [|line before IH]; intros st st' outs Hrun; simpl in *.
  - now inversion Hrun.
  - destruct (loads_body fs st line) as [st1|e]; simpl in Hrun; [|discriminate].
    destruct (loads_run fs st1 before) as [[outs1 st2]|e] eqn:Hrest;
      simpl in Hrun; [|discriminate].
    inversion Hrun; subst. simpl. f_equal. now apply IH.
Qed.

Lemma loads_run_whitespace (blanks : list str) (st : loads_state) :
  visible_prefixes = true ->
  forallb isspace blanks = true ->
  loads_run fs st blanks = Ok (map (fun _ => parsed_line st) blanks, st).
Proof.
  intros Hvis. induction blanks as [|line blanks IH]; intros Hblanks; simpl.
  - reflexivity.
  - simpl in Hblanks. apply andb_true_iff in Hblanks as [Hline Hblanks].
    rewrite loads_body_whitespace; auto using isspace_no_directive.
    simpl. now rewrite IH.
Qed.

(** C9.  When the input begins with whitespace-only lines, no value has
    been parsed yet and [loads] yields [None] for each of them, then goes
    on with the rest of the lines from its initial state.  (The registered
    prefixes begin with a visible character, so none of them is found at
    the head of such a line.) *)
Theorem loads_leading_whitespace_yields_None
        (m3u_string : str) (blanks rest : list str) :
  visible_prefixes = true ->
  splitlines m3u_string = blanks ++ rest ->
  forallb isspace blanks = true ->
  loads fs m3u_string
  = yield_then (map (fun _ => None) blanks) (loads_lines fs loads_init rest).
Proof.
  intros Hvis Hlines Hblanks. unfold loads. rewrite Hlines.
  apply loads_lines_app. now apply loads_run_whitespace.
Qed.

(** C6.  A Metadata directive line directly followed by a path line: the
    directive is yielded for the first, and the file reference yielded
    for the second carries that directive as its external info, after
    which no directive is pending. *)
Theorem loads_attaches_metadata
        (m3u_string : str) (before after : list str) (outs : list (option M3UObject))
        (st : loads_state) (metadata_line path : str)
        (cls : DirectiveClass Directive DirectiveError) (d : Directive) :
  splitlines m3u_string = before ++ metadata_line :: path :: after ->
  loads_run fs loads_init before = Ok (outs, st) ->
  matched_prefix_dict metadata_line ALL_DIRECTIVE_PREFIXES None = Some cls ->
  from_m3u_string cls metadata_line = Ok d ->
  isinstance_EXTINF d = true ->
  matched_prefix_dict path ALL_DIRECTIVE_PREFIXES None = None ->
  isspace path = false ->
  exists f : AudioFileRef,
    loads fs m3u_string
    = yield_then outs
        (Yield (Some (DirectiveObj d))
           (Yield (Some (FileRef f))
              (loads_lines fs {| parsed_line := Some (FileRef f);
                                 last_external_info := None |} after)))
    /\ _source f = path
    /\ _external_info f = Some d.
Proof.
  intros Hlines Hrun Hcls Hparse Hinf Hnone Hspace.
  exists (AudioFileRef_init fs path (Some d) true true).
  repeat split. unfold loads. rewrite Hlines.
  rewrite (loads_lines_app before _ _ _ _ Hrun). f_equal. simpl.
  rewrite (loads_body_directive _ _ _ _ Hcls Hparse). rewrite Hinf. simpl.
  rewrite (loads_body_path _ _ Hnone Hspace). reflexivity.
Qed.

(** The text of a well-formed playlist read back, from any state. *)
Lemma loads_lines_dumps (playlist : list M3UObject) :
  Forall (well_formed_item) playlist ->
  forall st : loads_state,
    loads_lines fs st (splitlines (dumps playlist))
    = yield_from (map Some (reparsed fs (last_external_info st) playlist)).
Proof.
  induction 1 as [|o playlist Ho _ IH]; intros st; [reflexivity|].
  rewrite dumps_cons.
  destruct o as [f | dir | d]; simpl in Ho.
  - destruct (_external_info f) as [info|] eqn:Hinfo; [|contradiction].
    destruct Ho as (Htruth & Hinf & [Hone Hback] & Hpath1 & Hnone & Hspace).
    destruct (matched_prefix_dict (as_m3u info) ALL_DIRECTIVE_PREFIXES None)
      as [cls|] eqn:Hcls; [|contradiction].
    rewrite (dumps_item_with_info _ _ Hinfo Htruth).
    rewrite <- !app_assoc. simpl.
    rewrite (splitlines_line _ _ Hone), (splitlines_line _ _ Hpath1). simpl.
    rewrite (loads_body_directive _ _ _ _ Hcls Hback). rewrite Hinf. simpl.
    rewrite (loads_body_path _ _ Hnone Hspace). simpl.
    rewrite IH, Hinfo. reflexivity.
  - destruct Ho as (Hone & Hnone & Hspace). simpl.
    rewrite (splitlines_line _ _ Hone). simpl.
    rewrite (loads_body_path _ _ Hnone Hspace). simpl.
    now rewrite IH.
  - destruct Ho as [Hone Hback].
    destruct (matched_prefix_dict (as_m3u d) ALL_DIRECTIVE_PREFIXES None)
      as [cls|] eqn:Hcls; [|contradiction].
    simpl. rewrite (splitlines_line _ _ Hone). simpl.
    rewrite (loads_body_directive _ _ _ _ Hcls Hback). simpl.
    now rewrite IH.
Qed.

Lemma yielded_yield_from (A E : Type) (l : list A) :
  yielded (@yield_from A E l) = l /\ thrown (@yield_from A E l) = None.
Proof.
  induction l as [|a l [IHy IHt]]; simpl; [now split|].
  split; [now f_equal | assumption].
Qed.

Lemma reparsed_directives (pending : option Directive) (playlist : list M3UObject) :
  Forall (fun o => exists d, o = DirectiveObj d) playlist ->
  reparsed fs pending playlist = playlist.
Proof.
  intros H; revert pending.
  induction H as [|o playlist [d ->] _ IH]; intros pending; simpl;
    [reflexivity | now rewrite IH].
Qed.

(** C1, amended.  For a well-formed playlist of bare directives, file
    references that carry a Metadata directive and directory references,
    [loads(dumps(P))] runs to its end and yields: each bare directive as
    itself; for each file reference its Metadata directive and then a
    file reference with the same source and the same external info; for
    each directory reference a file reference on the directory path.  A
    playlist of bare directives alone comes back as it is. *)
Theorem loads_dumps_reparsed (playlist : list M3UObject) :
  Forall (well_formed_item) playlist ->
  loads fs (dumps playlist) = yield_from (map Some (reparsed fs None playlist))
  /\ (Forall (fun o => exists d, o = DirectiveObj d) playlist ->
      round_trips fs playlist).
Proof.
  intros Hwf.
  assert (Hloads : loads fs (dumps playlist)
                   = yield_from (map Some (reparsed fs None playlist)))
    by apply (loads_lines_dumps _ Hwf loads_init).
  split; [assumption|].
  intros Hdirs. unfold round_trips. rewrite Hloads.
  destruct (yielded_yield_from _ DirectiveError (map Some (reparsed fs None playlist)))
    as [-> ->].
  split; [reflexivity|].
  rewrite (reparsed_directives _ _ Hdirs). now rewrite map_map.
Qed.

End Loads.

(** ** [AudioFileRef] and [AudioDirRef] *)
Section References.

Context {DM : DirectivesModule}.
Variable fs : FileSystem.

Lemma AudioDirRef_init_ok (directory : str) (ve vd ce : bool) (listing : list str) :
  os_listdir fs directory = Ok listing ->
  AudioDirRef_init fs directory ve vd ce
  = Ok {| _directory := directory;
          _audio_files :=
            map (fun file => AudioFileRef_init fs file None true ce) listing;
          _dir_exists := if ve then Some (os_path_exists fs directory) else None;
          _is_dir := if vd then Some (os_path_isdir fs directory) else None |}.
Proof.
  intros Hlist. unfold AudioDirRef_init. now rewrite Hlist.
Qed.

Lemma AudioDirRef_init_inv (directory : str) (ve vd ce : bool) (r : AudioDirRef) :
  AudioDirRef_init fs directory ve vd ce = Ok r ->
  exists listing,
    os_listdir fs directory = Ok listing
    /\ _audio_files r
       = map (fun file => AudioFileRef_init fs file None true ce) listing.
Proof.
  unfold AudioDirRef_init. destruct (os_listdir fs directory) as [listing|e]; simpl.
  - intros H. inversion H; subst. now exists listing.
  - discriminate.
Qed.

(** What the constructor computes from a listing: one file reference per
    name, in the order of the listing, with the extension mark of each
    name when [check_extension] is on and no mark when it is off.  No
    name is dropped, whatever its extension. *)
Lemma AudioDirRef_files_follow_listing
        (directory : str) (ve vd ce : bool) (listing : list str) :
  os_listdir fs directory = Ok listing ->
  exists r : AudioDirRef,
    AudioDirRef_init fs directory ve vd ce = Ok r
    /\ map _source (_audio_files r) = listing
    /\ map _is_supported (_audio_files r)
       = map (fun file =>
                if ce then Some (endswith file supported_audio_file_extensions)
                else None) listing
    /\ (listing = [py "song.mp3"; py "image.jpg"; py "readme.txt"] ->
        ce = true ->
        length (_audio_files r) = 3
        /\ map _is_supported (_audio_files r) = [Some true; Some false; Some false]).
Proof.
  intros Hlist.
  pose proof (AudioDirRef_init_ok directory ve vd ce listing Hlist) as Hinit.
  eexists. split; [exact Hinit|]. simpl.
  assert (Hsup : map _is_supported
                     (map (fun file => AudioFileRef_init fs file None true ce) listing)
                 = map (fun file =>
                          if ce then Some (endswith file supported_audio_file_extensions)
                          else None) listing)
    by (rewrite map_map; reflexivity).
  split; [rewrite map_map; simpl; apply map_id|].
  split; [assumption|].
  intros -> ->. split; reflexivity.
Qed.

(** The children of a directory reference, field by field: the source
    of the n-th child is the n-th name of the listing, as [os.listdir]
    gives it; no external info; the existence check is made, on that
    name; the extension check is made when [check_extension] is on. *)
Lemma AudioDirRef_children_are_existence_checked
      (directory : str) (ve vd ce : bool) (listing : list str) (r : AudioDirRef) :
  os_listdir fs directory = Ok listing ->
  AudioDirRef_init fs directory ve vd ce = Ok r ->
  _audio_files r
  = map (fun name =>
           {| _source := name;
              _external_info := None;
              _exists := Some (os_path_exists fs name);
              _is_supported :=
                if ce then Some (endswith name supported_audio_file_extensions)
                else None |})
        listing.
Proof.
  intros Hlist Hinit.
  apply AudioDirRef_init_inv in Hinit as (listing' & Hlist' & ->).
  assert (listing' = listing) by congruence. now subst listing'.
Qed.

(** C8.  The constructor of a directory reference raises exactly when
    [os.listdir] does, and what it raises is the exception of
    [os.listdir], unchanged.  It is the one operation with an [OSError]
    outcome: the constructor of a file reference returns for every path,
    and for a path that does not exist it stores [False] (or nothing when
    the check is off). *)
Theorem AudioDirRef_init_raises_what_listdir_raises
        (directory : str) (ve vd ce : bool) :
  (forall e : OSError,
      os_listdir fs directory = Raise e
      <-> AudioDirRef_init fs directory ve vd ce = Raise e)
  /\ (forall (source : str) (info : option Directive) (ve' ce' : bool),
         os_path_exists fs source = false ->
         _source (AudioFileRef_init fs source info ve' ce') = source
         /\ _exists (AudioFileRef_init fs source info ve' ce')
            = if ve' then Some false else None).
Proof.
  split.
  - intros e. unfold AudioDirRef_init.
    destruct (os_listdir fs directory) as [listing|e']; simpl;
      split; intros H; try discriminate H; now inversion H.
  - intros source info ve' ce' Hmissing. simpl. now rewrite Hmissing.
Qed.

End References.

(** * The statements at the examples *)

(** C1, as stated, fails: the text of a file reference that carries a
    Metadata directive is read back as two values, the directive and the
    file reference. *)
Lemma round_trip_fails_on_song_ref :
  ~ round_trips music_fs [FileRef song_ref].
Proof.
  intros [_ H]. vm_compute in H. discriminate H.
Qed.

Lemma loads_dumps_reparsed_witness :
  Forall well_formed_item example_playlist
  /\ loads music_fs (dumps example_playlist)
     = yield_from (map Some (reparsed music_fs None example_playlist)).
Proof.
  assert (Hwf : Forall well_formed_item example_playlist).
  { repeat apply Forall_cons; try apply Forall_nil;
      vm_compute; repeat split; reflexivity. }
  split; [exact Hwf|].
  exact (proj1 (loads_dumps_reparsed music_fs example_playlist Hwf)).
Defined.

(** C2.  The input of the scenario, with an empty middle line: the second
    value is a new file reference with the empty string as its source,
    not the first value again. *)
Theorem loads_blank_line_yields_empty_file_ref :
  loads music_fs blank_middle_input
  = yield_from
      [ Some (FileRef (AudioFileRef_init music_fs (py "/music/a.mp3") None true true));
        Some (FileRef (AudioFileRef_init music_fs [] None true true));
        Some (FileRef (AudioFileRef_init music_fs (py "/music/b.mp3") None true true)) ]
  /\ nth_error (yielded (loads music_fs blank_middle_input)) 1
     <> nth_error (yielded (loads music_fs blank_middle_input)) 0.
Proof.
  split; [reflexivity|]. vm_compute. discriminate.
Qed.

(** C3.  A file reference without external info: [dumps] gives a newline,
    the source and a newline, not just the source and a newline. *)
Theorem dumps_file_without_info_opens_with_newline :
  dumps [FileRef (AudioFileRef_init music_fs (py "/music/a.mp3") None true true)]
  = [LF] ++ py "/music/a.mp3" ++ [LF]
  /\ dumps [FileRef (AudioFileRef_init music_fs (py "/music/a.mp3") None true true)]
     <> py "/music/a.mp3" ++ [LF].
Proof.
  split; [reflexivity|]. vm_compute. discriminate.
Qed.

(** C4.  The directory of the claim, with [song.mp3], [image.jpg] and
    [readme.txt]: the constructor gives three file references, one per
    entry, [image.jpg] and [readme.txt] among them and marked
    unsupported, where the claim, like the note on
    [supported_audio_file_extensions] (unsupported formats will be
    filtered out), has [song.mp3] alone; and with [check_extension] off
    none of the children is extension-checked. *)
Theorem music_dir_keeps_every_entry :
  AudioDirRef_init music_fs (py "music") true true true = Ok music_dir
  /\ map _source (_audio_files music_dir)
     = [py "song.mp3"; py "image.jpg"; py "readme.txt"]
  /\ map _is_supported (_audio_files music_dir)
     = [Some true; Some false; Some false]
  /\ length (_audio_files music_dir) = 3
  /\ ~ (exists f, _audio_files music_dir = [f])
  /\ (exists r, AudioDirRef_init music_fs (py "music") true true false = Ok r
                /\ map _is_supported (_audio_files r) = [None; None; None]).
Proof.
  repeat (split; [reflexivity|]). split.
  - intros [f H]. discriminate H.
  - eexists. split; reflexivity.
Qed.

Lemma AudioDirRef_files_follow_listing_witness :
  os_listdir music_fs (py "music") = Ok music_listing
  /\ exists r : AudioDirRef,
      AudioDirRef_init music_fs (py "music") true true true = Ok r
      /\ map _source (_audio_files r) = music_listing
      /\ map _is_supported (_audio_files r) = [Some true; Some false; Some false].
Proof.
  split; [reflexivity|].
  destruct (AudioDirRef_files_follow_listing
              music_fs (py "music") true true true music_listing eq_refl)
    as (r & Hinit & Hsrc & _ & Hmusic).
  exists r. repeat split; try assumption.
  exact (proj2 (Hmusic eq_refl eq_refl)).
Defined.

(** C5.  The directory of the example: the existence check is not
    suppressed for the children.  Each has its [exists] field set, and
    set to [False], the check being made on the name as [os.listdir]
    gives it, without the directory, although the three files are there
    under [music/]. *)
Theorem music_dir_children_have_exists_set :
  AudioDirRef_init music_fs (py "music") true true true = Ok music_dir
  /\ map _source (_audio_files music_dir)
     = [py "song.mp3"; py "image.jpg"; py "readme.txt"]
  /\ map _exists (_audio_files music_dir) = [Some false; Some false; Some false]
  /\ ~ Forall (fun f : AudioFileRef => _exists f = None) (_audio_files music_dir)
  /\ map (os_path_exists music_fs)
         [py "music/song.mp3"; py "music/image.jpg"; py "music/readme.txt"]
     = [true; true; true].
Proof.
  repeat (split; [reflexivity|]). split; [|reflexivity].
  intros H. inversion H as [|f l Hf _]. discriminate Hf.
Qed.

Lemma AudioDirRef_children_are_existence_checked_witness :
  os_listdir music_fs (py "music") = Ok music_listing
  /\ AudioDirRef_init music_fs (py "music") true true true = Ok music_dir
  /\ _audio_files music_dir
     = map (fun name =>
              {| _source := name;
                 _external_info := None;
                 _exists := Some (os_path_exists music_fs name);
                 _is_supported :=
                   Some (endswith name supported_audio_file_extensions) |})
           music_listing.
Proof.
  split; [reflexivity|]. split; [reflexivity|].
  exact (AudioDirRef_children_are_existence_checked
           music_fs (py "music") true true true music_listing music_dir
           eq_refl eq_refl).
Defined.

Lemma AudioDirRef_init_raises_what_listdir_raises_witness :
  os_listdir music_fs (py "missing") = Raise FileNotFoundError
  /\ AudioDirRef_init music_fs (py "missing") true true true = Raise FileNotFoundError
  /\ _exists (AudioFileRef_init music_fs (py "missing.mp3") None true true)
     = Some false.
Proof.
  split; [reflexivity|]. split.
  - exact (proj1 (proj1 (AudioDirRef_init_raises_what_listdir_raises
                           music_fs (py "missing") true true true)
                        FileNotFoundError) eq_refl).
  - exact (proj2 (proj2 (AudioDirRef_init_raises_what_listdir_raises
                           music_fs (py "missing") true true true)
                        (py "missing.mp3") None true true eq_refl)).
Defined.

Lemma loads_attaches_metadata_witness :
  splitlines song_input = [py "#EXTINF:123,My Song"; py "/music/song.mp3"]
  /\ exists f : AudioFileRef,
      loads music_fs song_input
      = Yield (Some (DirectiveObj my_song)) (Yield (Some (FileRef f)) Stop)
      /\ _source f = py "/music/song.mp3"
      /\ _external_info f = Some my_song.
Proof.
  split; [reflexivity|].
  exact (loads_attaches_metadata
           music_fs song_input [] [] [] loads_init
           (py "#EXTINF:123,My Song") (py "/music/song.mp3")
           {| from_m3u_string := Directives.EXTINF_from_m3u_string |} my_song
           eq_refl eq_refl eq_refl eq_refl eq_refl eq_refl eq_refl).
Defined.

Lemma loads_leading_whitespace_yields_None_witness :
  splitlines blank_start_input = [py "  "; [9%N]] ++ [py "/music/a.mp3"]
  /\ loads music_fs blank_start_input
     = Yield None
         (Yield None (loads_lines music_fs loads_init [py "/music/a.mp3"])).
Proof.
  split; [reflexivity|].
  exact (loads_leading_whitespace_yields_None
           music_fs blank_start_input [py "  "; [9%N]] [py "/music/a.mp3"]
           eq_refl eq_refl eq_refl).
Defined.

(** * Further properties of the code *)

(** ** Lines and line ends *)

Lemma splitlines_from_LF (cur rest : str) :
  splitlines_from cur (LF :: rest) = cur :: splitlines_from [] rest.
Proof.
  simpl. now destruct rest.
Qed.

(** No line of [splitlines] holds a line boundary. *)
Lemma splitlines_from_single_lines (s : str) :
  forall cur : str,
    single_line cur = true ->
    Forall (fun line => single_line line = true) (splitlines_from cur s).
Proof.
  induction s as [|c rest IH]; intros cur Hcur; simpl.
  - destruct cur; [constructor | now repeat constructor].
  - destruct (is_linebreak c) eqn:Hc.
    + constructor; [assumption|].
      specialize (IH [] eq_refl).
      destruct rest as [|c' rest']; [constructor|].
      destruct (N.eqb c CR && N.eqb c' LF) eqn:Hcrlf; [|assumption].
      apply andb_true_iff in Hcrlf as [_ Hlf]. apply N.eqb_eq in Hlf. subst c'.
      rewrite splitlines_from_LF in IH. now inversion IH.
    + apply IH. unfold single_line. rewrite forallb_app. simpl.
      fold (single_line cur). now rewrite Hcur, Hc.
Qed.

Lemma splitlines_single_lines (s : str) :
  Forall (fun line => single_line line = true) (splitlines s).
Proof.
  now apply splitlines_from_single_lines.
Qed.


Lemma single_line_head (line : str) (c : N) :
  single_line (c :: line) = true -> is_linebreak c = false.
Proof.
  simpl. intros H. apply andb_true_iff in H as [Hc _]. now apply negb_true_iff.
Qed.

(** A line closed by one boundary character that is not read as the
    first half of \r\n. *)
Lemma splitlines_from_boundary (line : str) (c : N) (rest : str) :
  single_line line = true ->
  is_linebreak c = true ->
  match rest with c' :: _ => N.eqb c CR && N.eqb c' LF = false | [] => True end ->
  forall cur : str,
    splitlines_from cur (line ++ c :: rest) = (cur ++ line) :: splitlines rest.
Proof.
  intros Hline Hc Hrest.
  induction line as [|x line IH]; intros cur.
  - rewrite app_nil_r. simpl. rewrite Hc.
    destruct rest as [|c' rest']; [reflexivity|]. now rewrite Hrest.
  - simpl in Hline. apply andb_true_iff in Hline as [Hx Hline].
    apply negb_true_iff in Hx. simpl. rewrite Hx.
    rewrite (IH Hline). now rewrite <- app_assoc.
Qed.

Lemma splitlines_from_crlf (line rest : str) :
  single_line line = true ->
  forall cur : str,
    splitlines_from cur (line ++ CR :: LF :: rest) = (cur ++ line) :: splitlines rest.
Proof.
  intros Hline.
  induction line as [|x line IH]; intros cur.
  - rewrite app_nil_r. reflexivity.
  - simpl in Hline. apply andb_true_iff in Hline as [Hx Hline].
    apply negb_true_iff in Hx. simpl. rewrite Hx.
    rewrite (IH Hline). now rewrite <- app_assoc.
Qed.

(** The text that follows a line end in [terminated] does not begin
    with \n, unless the line end itself does. *)
Lemma terminated_head (eol : str) (lines : list str) (tail : str) :
  line_terminator eol = true ->
  Forall (fun line => single_line line = true) lines ->
  match tail with c :: _ => c <> LF | [] => True end ->
  match terminated eol lines ++ tail with
  | c' :: _ => c' = LF -> exists rest, eol = LF :: rest
  | [] => True
  end.
Proof.
  intros Heol Hlines Htail. destruct lines as [|line lines].
  - simpl. destruct tail as [|c tail']; [exact I | now intros ->].
  - unfold terminated. simpl. inversion Hlines as [|? ? Hline _]; subst.
    destruct line as [|x line]; simpl.
    + destruct eol as [|e eol]; [discriminate|]. simpl. intros ->. now exists eol.
    + intros ->. apply single_line_head in Hline. discriminate Hline.
Qed.

(** Lines written with one line end, and a text after them that does not
    begin with \n: the lines, then the lines of that text. *)
Lemma splitlines_terminated_app (eol : str) (lines : list str) (tail : str) :
  line_terminator eol = true ->
  Forall (fun line => single_line line = true) lines ->
  match tail with c :: _ => c <> LF | [] => True end ->
  splitlines (terminated eol lines ++ tail) = lines ++ splitlines tail.
Proof.
  intros Heol Hlines Htail.
  induction Hlines as [|line lines Hline Hlines IH]; [reflexivity|].
  unfold terminated. simpl. fold (terminated eol lines).
  rewrite <- !app_assoc.
  destruct eol as [|c [|c' [|? ?]]]; try discriminate; simpl in Heol.
  - unfold splitlines at 1. simpl.
    rewrite splitlines_from_boundary; auto; [now rewrite IH|].
    pose proof (terminated_head [c] lines tail Heol Hlines Htail) as Hhead.
    destruct (terminated [c] lines ++ tail) as [|y rest]; [exact I|].
    destruct (N.eqb_spec c CR) as [->|]; [|reflexivity].
    destruct (N.eqb_spec y LF) as [->|]; [|reflexivity].
    exfalso. destruct Hhead as [rest' Heq]; auto. discriminate Heq.
  - apply andb_true_iff in Heol as [Hc Hc'].
    apply N.eqb_eq in Hc, Hc'. subst c c'.
    unfold splitlines at 1. simpl.
    rewrite splitlines_from_crlf; auto. now rewrite IH.
Qed.

Lemma splitlines_terminated (eol : str) (lines : list str) :
  line_terminator eol = true ->
  Forall (fun line => single_line line = true) lines ->
  splitlines (terminated eol lines) = lines.
Proof.
  intros Heol Hlines.
  rewrite <- (app_nil_r (terminated eol lines)).
  rewrite splitlines_terminated_app; auto. apply app_nil_r.
Qed.


(** [s.endswith(suffix)] says that [s] ends with [suffix]. *)
Lemma endswith1_iff (s suffix : str) :
  endswith1 s suffix = true <-> exists stem, s = stem ++ suffix.
Proof.
  unfold endswith1. rewrite startswith_iff. split.
  - intros [rest H]. exists (rev rest).
    rewrite <- (rev_involutive s), H, rev_app_distr. now rewrite rev_involutive.
  - intros [stem ->]. exists (rev stem). apply rev_app_distr.
Qed.

(** ** More on [matched_prefix_dict], [AudioFileRef] and [dumps] *)

Lemma startswith_app (s prefix ext : str) :
  startswith s (prefix ++ ext) = true -> startswith s prefix = true.
Proof.
  rewrite !startswith_iff. intros [rest ->]. exists (ext ++ rest).
  now rewrite app_assoc.
Qed.

Lemma matched_prefix_dict_app (Value : Type) (string : str)
      (before after : list (str * Value)) (default_value : option Value) :
  matched_prefix_dict string (before ++ after) default_value
  = matched_prefix_dict string before
      (matched_prefix_dict string after default_value).
Proof.
  induction before as [|[p v] before IH]; simpl; [reflexivity|].
  now destruct (startswith string p).
Qed.

(** X1.  A key that extends an earlier key of the dictionary is never
    the one found: the lookup gives, for every string, what it gives
    without that key. *)
Theorem matched_prefix_dict_shadowed_key
        (Value : Type) (string : str) (before middle after : list (str * Value))
        (prefix ext : str) (v w : Value) (default_value : option Value) :
  matched_prefix_dict string
    (before ++ (prefix, v) :: middle ++ (prefix ++ ext, w) :: after) default_value
  = matched_prefix_dict string
      (before ++ (prefix, v) :: middle ++ after) default_value.
Proof.
  rewrite !matched_prefix_dict_app. f_equal. simpl.
  destruct (startswith string prefix) eqn:Hp; [reflexivity|].
  rewrite !matched_prefix_dict_app. f_equal. simpl.
  destruct (startswith string (prefix ++ ext)) eqn:Hext; [|reflexivity].
  apply startswith_app in Hext. congruence.
Qed.

Section MoreReferences.

Context {DM : DirectivesModule}.
Variable fs : FileSystem.

(** X2.  With the extension check on, a file reference is marked
    supported exactly when its source ends with [.mp3], in these very
    characters, and marked unsupported otherwise; the mark does not
    depend on the filesystem nor on the other arguments. *)
Theorem AudioFileRef_supported_iff_mp3
        (source : str) (info : option Directive) (validate_existence : bool) :
  (_is_supported (AudioFileRef_init fs source info validate_existence true)
   = Some true
   <-> exists stem, source = stem ++ py ".mp3")
  /\ (_is_supported (AudioFileRef_init fs source info validate_existence true)
      = Some false
      <-> ~ exists stem, source = stem ++ py ".mp3").
Proof.
  simpl. unfold endswith, supported_audio_file_extensions. simpl.
  rewrite orb_false_r. rewrite <- endswith1_iff.
  destruct (endswith1 source (py ".mp3")); split; split;
    congruence || (intros H; try reflexivity; now contradiction H).
Qed.

(** X3.  [dumps] of arguments put one after the other is the text of the
    first followed by the text of the others. *)
Theorem dumps_app (args args' : list M3UObject) :
  dumps (args ++ args') = dumps args ++ dumps args'.
Proof.
  rewrite !dumps_concat. now rewrite map_app, concat_app.
Qed.

End MoreReferences.

(** ** More on [loads] *)
Section MoreLoads.

Context {DM : DirectivesModule}.
Variable fs : FileSystem.

Lemma yielded_yield_then (A E : Type) (l : list A) (g : Generator A E) :
  yielded (yield_then l g) = l ++ yielded g
  /\ thrown (yield_then l g) = thrown g.
Proof.
  induction l as [|a l [IHy IHt]]; simpl; [now split|].
  split; [now f_equal | assumption].
Qed.

Lemma loads_lines_count (lines : list str) :
  forall st : loads_state,
    (thrown (loads_lines fs st lines) = None ->
     length (yielded (loads_lines fs st lines)) = length lines)
    /\ (forall e, thrown (loads_lines fs st lines) = Some e ->
                  length (yielded (loads_lines fs st lines)) < length lines).
Proof.
  induction lines as [|line lines IH]; intros st; simpl.
  - split; [reflexivity | discriminate].
  - destruct (loads_body fs st line) as [st'|e]; simpl.
    + destruct (IH st') as [IHnone IHsome]. split.
      * intros H. now rewrite IHnone.
      * intros e H. apply IHsome in H. lia.
    + split; [discriminate | intros; lia].
Qed.

(** X4.  [loads] yields one value for each line of its input when it
    runs to its end, the empty input giving none; when an exception ends
    it, fewer values than lines were yielded. *)
Theorem loads_one_value_per_line (m3u_string : str) :
  (thrown (loads fs m3u_string) = None ->
   length (yielded (loads fs m3u_string)) = length (splitlines m3u_string))
  /\ (forall e, thrown (loads fs m3u_string) = Some e ->
                length (yielded (loads fs m3u_string))
                < length (splitlines m3u_string))
  /\ loads fs [] = Stop.
Proof.
  destruct (loads_lines_count (splitlines m3u_string) loads_init) as [Hnone Hsome].
  repeat split; assumption.
Qed.

(** X5.  A line that starts with a registered prefix and that the class
    of the prefix cannot parse ends the generator with the exception of
    the class; the values of the lines before it have been yielded, and
    nothing is yielded for the lines after it. *)
Theorem loads_malformed_directive_throws
        (m3u_string : str) (before after : list str) (outs : list (option M3UObject))
        (st : loads_state) (line : str)
        (cls : DirectiveClass Directive DirectiveError) (e : DirectiveError) :
  splitlines m3u_string = before ++ line :: after ->
  loads_run fs loads_init before = Ok (outs, st) ->
  matched_prefix_dict line ALL_DIRECTIVE_PREFIXES None = Some cls ->
  from_m3u_string cls line = Raise e ->
  loads fs m3u_string = yield_then outs (Throw e)
  /\ yielded (loads fs m3u_string) = outs
  /\ thrown (loads fs m3u_string) = Some e.
Proof.
  intros Hlines Hrun Hcls Hparse.
  assert (Hloads : loads fs m3u_string = yield_then outs (Throw e)).
  { unfold loads. rewrite Hlines, (loads_lines_app fs before _ _ _ _ Hrun).
    f_equal. simpl. unfold loads_body. rewrite Hcls. simpl. now rewrite Hparse. }
  rewrite Hloads.
  destruct (yielded_yield_then _ _ outs (@Throw (option M3UObject) _ e)) as [-> ->].
  simpl. now rewrite app_nil_r.
Qed.

(** The lines that keep the pending directive: each yields a value, and
    the pending directive after them is the one before them. *)
Lemma loads_run_keeps_pending (middle : list str) :
  forallb keeps_pending middle = true ->
  forall st : loads_state,
  exists (outs : list (option M3UObject)) (st' : loads_state),
    loads_run fs st middle = Ok (outs, st')
    /\ last_external_info st' = last_external_info st
    /\ length outs = length middle.
Proof.
  induction middle as [|line middle IH]; intros Hmid st; simpl in *.
  - now exists [], st.
  - apply andb_true_iff in Hmid as [Hline Hmid].
    assert (Hbody : exists st1, loads_body fs st line = Ok st1
                                /\ last_external_info st1 = last_external_info st).
    { unfold keeps_pending in Hline. unfold loads_body.
      destruct (matched_prefix_dict line ALL_DIRECTIVE_PREFIXES None) as [cls|].
      - destruct (from_m3u_string cls line) as [d|e]; [|discriminate]. simpl.
        apply negb_true_iff in Hline. rewrite Hline. eexists; split; reflexivity.
      - rewrite Hline. simpl. now exists st. }
    destruct Hbody as (st1 & -> & Hst1). simpl.
    destruct (IH Hmid st1) as (outs & st' & -> & Hst' & Hlen). simpl.
    exists (parsed_line st1 :: outs), st'.
    split; [reflexivity|]. split; [congruence | simpl; now f_equal].
Qed.

(** X6.  The Metadata directive waits for its path: with whitespace
    lines and directives other than [EXTINF] between the directive line
    and the next path line, the file reference of that path line still
    carries the directive, and nothing is pending after it. *)
Theorem loads_metadata_waits_for_path
        (m3u_string : str) (before middle after : list str)
        (outs : list (option M3UObject)) (st : loads_state)
        (metadata_line path : str)
        (cls : DirectiveClass Directive DirectiveError) (d : Directive) :
  splitlines m3u_string = before ++ metadata_line :: middle ++ path :: after ->
  loads_run fs loads_init before = Ok (outs, st) ->
  matched_prefix_dict metadata_line ALL_DIRECTIVE_PREFIXES None = Some cls ->
  from_m3u_string cls metadata_line = Ok d ->
  isinstance_EXTINF d = true ->
  forallb keeps_pending middle = true ->
  matched_prefix_dict path ALL_DIRECTIVE_PREFIXES None = None ->
  isspace path = false ->
  exists (between : list (option M3UObject)) (f : AudioFileRef),
    loads fs m3u_string
    = yield_then outs
        (Yield (Some (DirectiveObj d))
           (yield_then between
              (Yield (Some (FileRef f))
                 (loads_lines fs {| parsed_line := Some (FileRef f);
                                    last_external_info := None |} after))))
    /\ length between = length middle
    /\ _source f = path
    /\ _external_info f = Some d.
Proof.
  intros Hlines Hrun Hcls Hparse Hinf Hmid Hnone Hspace.
  destruct (loads_run_keeps_pending middle Hmid
              {| parsed_line := Some (DirectiveObj d);
                 last_external_info := Some d |})
    as (between & st2 & Hrun2 & Hst2 & Hlen).
  exists between, (AudioFileRef_init fs path (Some d) true true).
  repeat split; [|assumption].
  unfold loads. rewrite Hlines, (loads_lines_app fs before _ _ _ _ Hrun).
  f_equal. simpl.
  rewrite (loads_body_directive fs _ _ _ _ Hcls Hparse), Hinf. simpl. f_equal.
  rewrite (loads_lines_app fs middle _ _ _ _ Hrun2). f_equal. simpl.
  rewrite (loads_body_path fs _ _ Hnone Hspace). simpl in Hst2. now rewrite Hst2.
Qed.

(** X7.  A Metadata directive is attached once: the file reference of
    the next path line after a path line, with only whitespace lines and
    directives other than [EXTINF] between the two, carries no external
    info. *)
Theorem loads_metadata_attaches_once
        (m3u_string : str) (before middle after : list str)
        (outs : list (option M3UObject)) (st : loads_state) (path path' : str) :
  splitlines m3u_string = before ++ path :: middle ++ path' :: after ->
  loads_run fs loads_init before = Ok (outs, st) ->
  matched_prefix_dict path ALL_DIRECTIVE_PREFIXES None = None ->
  isspace path = false ->
  forallb keeps_pending middle = true ->
  matched_prefix_dict path' ALL_DIRECTIVE_PREFIXES None = None ->
  isspace path' = false ->
  exists (between : list (option M3UObject)) (f f' : AudioFileRef),
    loads fs m3u_string
    = yield_then outs
        (Yield (Some (FileRef f))
           (yield_then between
              (Yield (Some (FileRef f'))
                 (loads_lines fs {| parsed_line := Some (FileRef f');
                                    last_external_info := None |} after))))
    /\ length between = length middle
    /\ _source f = path /\ _external_info f = last_external_info st
    /\ _source f' = path' /\ _external_info f' = None.
Proof.
  intros Hlines Hrun Hnone Hspace Hmid Hnone' Hspace'.
  destruct (loads_run_keeps_pending middle Hmid
              {| parsed_line :=
                   Some (FileRef (AudioFileRef_init
                                    fs path (last_external_info st) true true));
                 last_external_info := None |})
    as (between & st2 & Hrun2 & Hst2 & Hlen).
  exists between, (AudioFileRef_init fs path (last_external_info st) true true),
    (AudioFileRef_init fs path' None true true).
  repeat split; [|assumption].
  unfold loads. rewrite Hlines, (loads_lines_app fs before _ _ _ _ Hrun).
  f_equal. simpl.
  rewrite (loads_body_path fs _ _ Hnone Hspace). f_equal.
  rewrite (loads_lines_app fs middle _ _ _ _ Hrun2). f_equal. simpl.
  rewrite (loads_body_path fs _ _ Hnone' Hspace'). simpl in Hst2. now rewrite Hst2.
Qed.

Lemma last_cons_default (A : Type) (l : list A) :
  forall a d : A, last (a :: l) d = last l a.
Proof.
  induction l as [|b l IH]; intros a d; [reflexivity|].
  change (last (a :: b :: l) d) with (last (b :: l) d).
  now rewrite !IH.
Qed.

(** The value in the state is the value yielded last. *)
Lemma loads_run_last (before : list str) :
  forall (st st' : loads_state) (outs : list (option M3UObject)),
    loads_run fs st before = Ok (outs, st') ->
    parsed_line st' = last outs (parsed_line st).
Proof.
  induction before as [|line before IH]; intros st st' outs Hrun; simpl in Hrun.
  - now inversion Hrun.
  - destruct (loads_body fs st line) as [st1|e]; simpl in Hrun; [|discriminate].
    destruct (loads_run fs st1 before) as [[outs1 st2]|e] eqn:Hrest;
      simpl in Hrun; [|discriminate].
    inversion Hrun; subst. rewrite (IH _ _ _ Hrest).
    simpl fst. now rewrite last_cons_default.
Qed.

(** X8.  A line of whitespace characters that starts with no registered
    prefix yields the value yielded for the line before it once more
    ([None] when it is the first line), and changes nothing for the lines
    after it. *)
Theorem loads_whitespace_line_repeats
        (m3u_string : str) (before after : list str)
        (outs : list (option M3UObject)) (st : loads_state) (line : str) :
  splitlines m3u_string = before ++ line :: after ->
  loads_run fs loads_init before = Ok (outs, st) ->
  matched_prefix_dict line ALL_DIRECTIVE_PREFIXES None = None ->
  isspace line = true ->
  loads fs m3u_string
  = yield_then outs (Yield (last outs None) (loads_lines fs st after))
  /\ loads_lines fs loads_init (before ++ after)
     = yield_then outs (loads_lines fs st after).
Proof.
  intros Hlines Hrun Hnone Hspace. split.
  - unfold loads. rewrite Hlines, (loads_lines_app fs before _ _ _ _ Hrun).
    f_equal. simpl. rewrite (loads_body_whitespace fs _ _ Hnone Hspace).
    now rewrite (loads_run_last _ _ _ _ Hrun).
  - apply (loads_lines_app fs before _ _ _ _ Hrun).
Qed.

(** The value of the state after one line, when the value before it and
    the line are as [yielded_from_lines] asks. *)
Lemma loads_body_from_lines (all_lines : list str) (st st' : loads_state) (line : str) :
  In line all_lines ->
  single_line line = true ->
  yielded_from_lines fs all_lines (parsed_line st) ->
  loads_body fs st line = Ok st' ->
  yielded_from_lines fs all_lines (parsed_line st').
Proof.
  intros Hin Hline Hst. unfold loads_body.
  destruct (matched_prefix_dict line ALL_DIRECTIVE_PREFIXES None) as [cls|] eqn:Hcls.
  - destruct (from_m3u_string cls line) as [d|e]; simpl; [|discriminate].
    intros H. inversion H; subst. exact I.
  - destruct (isspace line) eqn:Hspace; simpl; intros H; inversion H; subst.
    + assumption.
    + simpl. repeat split; assumption.
Qed.

Lemma loads_lines_from_lines (all_lines lines : list str) :
  incl lines all_lines ->
  Forall (fun line => single_line line = true) lines ->
  forall st : loads_state,
    yielded_from_lines fs all_lines (parsed_line st) ->
    Forall (yielded_from_lines fs all_lines) (yielded (loads_lines fs st lines)).
Proof.
  intros Hincl Hlines. induction Hlines as [|line lines Hline Hlines IH];
    intros st Hst; simpl; [constructor|].
  destruct (loads_body fs st line) as [st'|e] eqn:Hbody; simpl; [|constructor].
  assert (Hst' : yielded_from_lines fs all_lines (parsed_line st')).
  { apply (loads_body_from_lines all_lines st st' line); auto.
    apply Hincl. now left. }
  constructor; [assumption|].
  apply IH; [|assumption]. intros l Hl. apply Hincl. now right.
Qed.

(** X9.  What [loads] yields: never a directory reference; and every
    file reference has for source one of the lines of the input, a line
    that is not whitespace only and starts with no registered prefix, and
    has both its existence and its extension checked. *)
Theorem loads_values_come_from_lines (m3u_string : str) :
  Forall (yielded_from_lines fs (splitlines m3u_string))
         (yielded (loads fs m3u_string)).
Proof.
  apply loads_lines_from_lines.
  - apply incl_refl.
  - apply splitlines_single_lines.
  - exact I.
Qed.

Lemma loads_body_keeps_value (st st' : loads_state) (line : str) (o : M3UObject) :
  parsed_line st = Some o ->
  loads_body fs st line = Ok st' ->
  exists o', parsed_line st' = Some o'.
Proof.
  intros Hst. unfold loads_body.
  destruct (matched_prefix_dict line ALL_DIRECTIVE_PREFIXES None) as [cls|].
  - destruct (from_m3u_string cls line) as [d|e]; simpl; [|discriminate].
    intros H. inversion H; subst. simpl. eauto.
  - destruct (isspace line); simpl; intros H; inversion H; subst; simpl; eauto.
Qed.

Lemma loads_lines_values (lines : list str) :
  forall (st : loads_state) (o : M3UObject),
    parsed_line st = Some o ->
    exists items, yielded (loads_lines fs st lines) = map Some items.
Proof.
  induction lines as [|line lines IH]; intros st o Hst; simpl.
  - now exists [].
  - destruct (loads_body fs st line) as [st'|e] eqn:Hbody; simpl.
    + destruct (loads_body_keeps_value st st' line o Hst Hbody) as [o' Hst'].
      destruct (IH st' o' Hst') as [items Hitems].
      exists (o' :: items). simpl. now rewrite Hst', Hitems.
    + now exists [].
Qed.

Lemma loads_lines_None_first (lines : list str) :
  forall st : loads_state,
  exists (k : nat) (items : list M3UObject),
    yielded (loads_lines fs st lines) = repeat None k ++ map Some items.
Proof.
  induction lines as [|line lines IH]; intros st; simpl.
  - now exists 0, [].
  - destruct (loads_body fs st line) as [st'|e] eqn:Hbody; simpl.
    + destruct (parsed_line st') as [o|] eqn:Hst'.
      * destruct (loads_lines_values lines st' o Hst') as [items Hitems].
        exists 0, (o :: items). simpl. now rewrite Hitems.
      * destruct (IH st') as (k & items & Hitems).
        exists (S k), items. simpl. now rewrite Hitems.
    + now exists 0, [].
Qed.

(** X10.  [None] is yielded only before the first parsed value: the
    values of [loads] are some [None]s, then objects only. *)
Theorem loads_None_only_first (m3u_string : str) :
  exists (k : nat) (items : list M3UObject),
    yielded (loads fs m3u_string) = repeat None k ++ map Some items.
Proof.
  apply loads_lines_None_first.
Qed.

Lemma info_seen_app (seen more : list (option M3UObject)) (info : option Directive) :
  info_seen seen info -> info_seen (seen ++ more) info.
Proof.
  destruct info as [d|]; simpl; [|trivial].
  intros [Hinf Hin]. split; [assumption | apply in_or_app; now left].
Qed.

(** One line: the value yielded carries an external info seen before,
    and the pending directive has been seen once that value is counted. *)
Lemma loads_body_info_seen (seen : list (option M3UObject))
      (st st' : loads_state) (line : str) :
  info_seen seen (last_external_info st) ->
  value_info_seen seen (parsed_line st) ->
  loads_body fs st line = Ok st' ->
  value_info_seen seen (parsed_line st')
  /\ info_seen (seen ++ [parsed_line st']) (last_external_info st').
Proof.
  intros Hlast Hvalue. unfold loads_body.
  destruct (matched_prefix_dict line ALL_DIRECTIVE_PREFIXES None) as [cls|].
  - destruct (from_m3u_string cls line) as [d|e]; simpl; [|discriminate].
    intros H. inversion H; subst. simpl. split; [exact I|].
    destruct (isinstance_EXTINF d) eqn:Hinf.
    + simpl. split; [assumption | apply in_or_app; right; now left].
    + now apply info_seen_app.
  - destruct (isspace line); simpl; intros H; inversion H; subst; simpl.
    + split; [assumption | now apply info_seen_app].
    + split; [assumption | exact I].
Qed.

Lemma loads_lines_info_seen (lines : list str) :
  forall (st : loads_state) (seen : list (option M3UObject)),
    info_seen seen (last_external_info st) ->
    value_info_seen seen (parsed_line st) ->
    forall (pre post : list (option M3UObject)) (v : option M3UObject),
      yielded (loads_lines fs st lines) = pre ++ v :: post ->
      value_info_seen (seen ++ pre) v.
Proof.
  induction lines as [|line lines IH]; intros st seen Hlast Hvalue pre post v Hy;
    simpl in Hy.
  - now destruct pre.
  - destruct (loads_body fs st line) as [st'|e] eqn:Hbody; simpl in Hy;
      [|now destruct pre].
    destruct (loads_body_info_seen seen st st' line Hlast Hvalue Hbody)
      as [Hvalue' Hlast'].
    destruct pre as [|v0 pre]; simpl in Hy; inversion Hy; subst.
    + now rewrite app_nil_r.
    + replace (seen ++ parsed_line st' :: pre)
        with ((seen ++ [parsed_line st']) ++ pre)
        by (now rewrite <- app_assoc).
      apply (IH st' _ Hlast') with (post := post); [|assumption].
      destruct (parsed_line st') as [[f| |]|]; simpl; trivial.
      now apply info_seen_app.
Qed.

(** X11.  The external info of a file reference that [loads] yields is
    an [EXTINF] directive that [loads] has yielded, as a value of its own,
    before the file reference. *)
Theorem loads_external_info_was_yielded
        (m3u_string : str) (pre post : list (option M3UObject))
        (f : AudioFileRef) (d : Directive) :
  yielded (loads fs m3u_string) = pre ++ Some (FileRef f) :: post ->
  _external_info f = Some d ->
  isinstance_EXTINF d = true /\ In (Some (DirectiveObj d)) pre.
Proof.
  intros Hy Hinfo.
  pose proof (loads_lines_info_seen (splitlines m3u_string) loads_init []
                I I pre post (Some (FileRef f)) Hy) as H.
  simpl in H. now rewrite Hinfo in H.
Qed.

(** X12.  The line end does not matter to [loads]: lines written with
    \r\n, or with any one line boundary character, are read as the same
    lines written with \n. *)
Theorem loads_any_line_terminator (eol : str) (lines : list str) :
  line_terminator eol = true ->
  Forall (fun line => single_line line = true) lines ->
  splitlines (terminated eol lines) = lines
  /\ loads fs (terminated eol lines) = loads fs (terminated [LF] lines).
Proof.
  intros Heol Hlines. split; [now apply splitlines_terminated|].
  unfold loads. now rewrite !splitlines_terminated.
Qed.


End MoreLoads.

(** ** More on [dumps] and [AudioDirRef] *)
Section MoreDumps.

Context {DM : DirectivesModule}.
Variable fs : FileSystem.

(** X14.  [dumps] gives the empty string for no argument only, and any
    other text it gives ends with a newline. *)
Theorem dumps_empty_or_newline_ended (args : list M3UObject) :
  (dumps args = [] <-> args = [])
  /\ (args = [] \/ exists body, dumps args = body ++ [LF]).
Proof.
  destruct args as [|o args].
  - split; [split; reflexivity | now left].
  - assert (Hend : exists body, dumps (o :: args) = body ++ [LF]).
    { destruct (exists_last (l := o :: args)) as (front & z & Heq); [discriminate|].
      rewrite Heq. rewrite dumps_concat, map_app, concat_app. simpl.
      rewrite app_nil_r. exists (concat (map (fun o => dumps_item o ++ [LF]) front)
                                   ++ dumps_item z).
      now rewrite <- app_assoc. }
    split; [|now right]. split; [|discriminate].
    destruct Hend as [body ->]. intros H. now destruct body.
Qed.

(** X15.  The children of a directory reference are built from the names
    of the listing alone: the directory path is not joined to them, so
    two directories with the same listing have the same children, each
    with the existence check made on the bare name. *)
Theorem AudioDirRef_children_ignore_directory
        (directory directory' : str) (ve vd ve' vd' ce : bool)
        (r r' : AudioDirRef) :
  AudioDirRef_init fs directory ve vd ce = Ok r ->
  AudioDirRef_init fs directory' ve' vd' ce = Ok r' ->
  os_listdir fs directory = os_listdir fs directory' ->
  _audio_files r = _audio_files r'
  /\ yielded (AudioDirRef_iter r) = yielded (AudioDirRef_iter r').
Proof.
  intros Hr Hr' Hsame.
  apply AudioDirRef_init_inv in Hr as (listing & Hl & Hfiles).
  apply AudioDirRef_init_inv in Hr' as (listing' & Hl' & Hfiles').
  assert (listing = listing') by congruence. subst listing'.
  assert (Heq : _audio_files r = _audio_files r') by congruence.
  split; [assumption|]. unfold AudioDirRef_iter. now rewrite Heq.
Qed.

End MoreDumps.

(** ** The further properties at the examples *)

Lemma loads_one_value_per_line_witness :
  thrown (loads music_fs song_input) = None
  /\ length (yielded (loads music_fs song_input)) = length (splitlines song_input)
  /\ length (yielded (loads music_fs malformed_input))
     < length (splitlines malformed_input).
Proof.
  split; [reflexivity|]. split.
  - exact (proj1 (loads_one_value_per_line music_fs song_input) eq_refl).
  - exact (proj1 (proj2 (loads_one_value_per_line music_fs malformed_input))
                 (Directives.Malformed (py "#EXTINF:12x,T")) eq_refl).
Defined.

Lemma loads_malformed_directive_throws_witness :
  splitlines malformed_input
  = [py "/music/a.mp3"] ++ py "#EXTINF:12x,T" :: [py "/music/b.mp3"]
  /\ yielded (loads music_fs malformed_input)
     = [Some (FileRef (AudioFileRef_init music_fs (py "/music/a.mp3") None true true))]
  /\ thrown (loads music_fs malformed_input)
     = Some (Directives.Malformed (py "#EXTINF:12x,T")).
Proof.
  split; [reflexivity|].
  exact (proj2 (loads_malformed_directive_throws
                  music_fs malformed_input
                  [py "/music/a.mp3"] [py "/music/b.mp3"]
                  [Some (FileRef (AudioFileRef_init
                                    music_fs (py "/music/a.mp3") None true true))]
                  {| parsed_line :=
                       Some (FileRef (AudioFileRef_init
                                        music_fs (py "/music/a.mp3") None true true));
                     last_external_info := None |}
                  (py "#EXTINF:12x,T")
                  {| from_m3u_string := Directives.EXTINF_from_m3u_string |}
                  (Directives.Malformed (py "#EXTINF:12x,T"))
                  eq_refl eq_refl eq_refl eq_refl)).
Defined.

Lemma loads_metadata_waits_for_path_witness :
  splitlines delayed_input
  = [] ++ py "#EXTINF:123,My Song"
       :: [py "#PLAYLIST:Mix"; py "  "] ++ py "/music/song.mp3" :: []
  /\ forallb keeps_pending [py "#PLAYLIST:Mix"; py "  "] = true
  /\ exists (between : list (option M3UObject)) (f : AudioFileRef),
      loads music_fs delayed_input
      = Yield (Some (DirectiveObj my_song))
          (yield_then between (Yield (Some (FileRef f)) Stop))
      /\ length between = 2
      /\ _source f = py "/music/song.mp3"
      /\ _external_info f = Some my_song.
Proof.
  split; [reflexivity|]. split; [reflexivity|].
  exact (loads_metadata_waits_for_path
           music_fs delayed_input [] [py "#PLAYLIST:Mix"; py "  "] []
           [] loads_init (py "#EXTINF:123,My Song") (py "/music/song.mp3")
           {| from_m3u_string := Directives.EXTINF_from_m3u_string |} my_song
           eq_refl eq_refl eq_refl eq_refl eq_refl eq_refl eq_refl eq_refl).
Defined.

Lemma loads_metadata_attaches_once_witness :
  splitlines two_paths_input
  = [py "#EXTINF:123,My Song"] ++ py "/music/a.mp3"
       :: [py "#PLAYLIST:Mix"] ++ py "/music/b.mp3" :: []
  /\ exists (between : list (option M3UObject)) (f f' : AudioFileRef),
      loads music_fs two_paths_input
      = Yield (Some (DirectiveObj my_song))
          (Yield (Some (FileRef f))
             (yield_then between (Yield (Some (FileRef f')) Stop)))
      /\ length between = 1
      /\ _source f = py "/music/a.mp3" /\ _external_info f = Some my_song
      /\ _source f' = py "/music/b.mp3" /\ _external_info f' = None.
Proof.
  split; [reflexivity|].
  exact (loads_metadata_attaches_once
           music_fs two_paths_input
           [py "#EXTINF:123,My Song"] [py "#PLAYLIST:Mix"] []
           [Some (DirectiveObj my_song)]
           {| parsed_line := Some (DirectiveObj my_song);
              last_external_info := Some my_song |}
           (py "/music/a.mp3") (py "/music/b.mp3")
           eq_refl eq_refl eq_refl eq_refl eq_refl eq_refl eq_refl).
Defined.

Lemma loads_whitespace_line_repeats_witness :
  splitlines spaces_middle_input
  = [py "/music/a.mp3"] ++ py "  " :: [py "/music/b.mp3"]
  /\ loads music_fs spaces_middle_input
     = Yield (Some (FileRef (AudioFileRef_init
                               music_fs (py "/music/a.mp3") None true true)))
         (Yield (Some (FileRef (AudioFileRef_init
                                  music_fs (py "/music/a.mp3") None true true)))
            (loads_lines music_fs
               {| parsed_line :=
                    Some (FileRef (AudioFileRef_init
                                     music_fs (py "/music/a.mp3") None true true));
                  last_external_info := None |}
               [py "/music/b.mp3"])).
Proof.
  split; [reflexivity|].
  exact (proj1 (loads_whitespace_line_repeats
                  music_fs spaces_middle_input
                  [py "/music/a.mp3"] [py "/music/b.mp3"]
                  [Some (FileRef (AudioFileRef_init
                                    music_fs (py "/music/a.mp3") None true true))]
                  {| parsed_line :=
                       Some (FileRef (AudioFileRef_init
                                        music_fs (py "/music/a.mp3") None true true));
                     last_external_info := None |}
                  (py "  ")
                  eq_refl eq_refl eq_refl eq_refl)).
Defined.

Lemma loads_external_info_was_yielded_witness :
  yielded (loads music_fs song_input)
  = [Some (DirectiveObj my_song)] ++ Some (FileRef song_ref) :: []
  /\ Directives.is_EXTINF my_song = true
  /\ In (Some (DirectiveObj my_song)) [Some (DirectiveObj my_song)].
Proof.
  split; [reflexivity|].
  exact (loads_external_info_was_yielded
           music_fs song_input [Some (DirectiveObj my_song)] [] song_ref my_song
           eq_refl eq_refl).
Defined.

Lemma loads_any_line_terminator_witness :
  line_terminator [CR; LF] = true
  /\ splitlines (terminated [CR; LF] [py "#EXTINF:123,My Song"; py "/music/song.mp3"])
     = [py "#EXTINF:123,My Song"; py "/music/song.mp3"]
  /\ loads music_fs
       (terminated [CR; LF] [py "#EXTINF:123,My Song"; py "/music/song.mp3"])
     = loads music_fs
         (terminated [LF] [py "#EXTINF:123,My Song"; py "/music/song.mp3"]).
Proof.
  split; [reflexivity|].
  apply (loads_any_line_terminator
           music_fs [CR; LF] [py "#EXTINF:123,My Song"; py "/music/song.mp3"]).
  - reflexivity.
  - repeat apply Forall_cons; try apply Forall_nil; reflexivity.
Defined.


Lemma AudioDirRef_children_ignore_directory_witness :
  AudioDirRef_init music_fs (py "music") true true true = Ok music_dir
  /\ _audio_files music_dir
     = map (fun file => AudioFileRef_init music_fs file None true true) music_listing
  /\ map _exists (_audio_files music_dir) = [Some false; Some false; Some false].
Proof.
  split; [reflexivity|]. split; [|reflexivity].
  exact (proj1 (AudioDirRef_children_ignore_directory
                  music_fs (py "music") (py "music") true true false false true
                  music_dir
                  {| _directory := py "music";
                     _audio_files :=
                       map (fun file => AudioFileRef_init music_fs file None true true)
                           music_listing;
                     _dir_exists := None;
                     _is_dir := None |}
                  eq_refl eq_refl eq_refl)).
Defined.
